(** * json.rs, C bindings example: the recursive printer [json_print]

    Shallow embedding of [examples/c-bindings.c].  The C program walks the
    tagged tree handed over by [json_deserialize] and renders it with
    [printf].  The embedding keeps the shape of the C code:

    - a [Json] value is the C struct: a discriminant and the payload views
      of the union, holding pointers and lengths, not nested values;
    - memory is a heap of allocations; every pointer dereference of the C
      code is a load that faults when the pointer is not backed by an
      allocation (null, dangling, index out of range);
    - [printf] appends bytes to the standard output; the computation is a
      writer monad over the emitted bytes and the log of loads;
    - the C recursion is bounded by the depth of the call stack, here
      [fuel]. *)

From Stdlib Require Import ZArith List Lia.
From Stdlib Require Import Strings.Byte Strings.String.
From Stdlib Require Import Floats.PrimFloat Floats.FloatOps Floats.SpecFloat.
From stdpp Require Import base option list gmap.

Local Open Scope Z_scope.
Set Warnings "-register-all".

(** ** Bytes and text *)

(** The literal [s] of the C source as the bytes [printf] sends out. *)
Definition lit (s : String.string) : list byte := list_byte_of_string s.

(** The terminating null character of a C string. *)
Definition NUL : byte := x00.

#[global] Instance byte_eq_decision : EqDecision byte := byte_eq_dec.

(** [c_str mem] is what a C-string consumer reads from the bytes [mem] that
    start at its argument: the characters up to, and not including, the
    first null character.  [None] when [mem] holds no null character: the
    consumer then runs past the end of the allocation. *)
Fixpoint c_str (mem : list byte) : option (list byte) :=
  match mem with
  | [] => None
  | c :: mem' =>
      if Byte.eqb c NUL then Some []
      else match c_str mem' with
           | Some s => Some (c :: s)
           | None => None
           end
  end.

(** The bytes of [s] in front of its first null character; all of [s] when
    it holds none. *)
Fixpoint until_nul (s : list byte) : list byte :=
  match s with
  | [] => []
  | c :: s' => if Byte.eqb c NUL then [] else c :: until_nul s'
  end.

(** ** [printf("%f", x)]

    The conversion is the one of the C standard (7.21.6.1, [f] with the
    default precision 6) in the default rounding mode: the exact value of
    the double, rounded to the nearest multiple of 10^-6, ties to even,
    written as [-]ddd.dddddd; infinities as [-]inf; a NaN as nan. *)

Definition digit (d : Z) : byte :=
  match d with
  | 0 => "0" | 1 => "1" | 2 => "2" | 3 => "3" | 4 => "4"
  | 5 => "5" | 6 => "6" | 7 => "7" | 8 => "8" | _ => "9"
  end%byte.

Fixpoint uint_digits (d : Decimal.uint) : list byte :=
  match d with
  | Decimal.Nil => []
  | Decimal.D0 d => digit 0 :: uint_digits d
  | Decimal.D1 d => digit 1 :: uint_digits d
  | Decimal.D2 d => digit 2 :: uint_digits d
  | Decimal.D3 d => digit 3 :: uint_digits d
  | Decimal.D4 d => digit 4 :: uint_digits d
  | Decimal.D5 d => digit 5 :: uint_digits d
  | Decimal.D6 d => digit 6 :: uint_digits d
  | Decimal.D7 d => digit 7 :: uint_digits d
  | Decimal.D8 d => digit 8 :: uint_digits d
  | Decimal.D9 d => digit 9 :: uint_digits d
  end.

(** Decimal digits of a natural number, most significant first, [0] for
    zero. *)
Definition decimal (n : Z) : list byte := uint_digits (N.to_uint (Z.to_N n)).

(** Exactly six digits of [n < 10^6], zero padded. *)
Definition six_digits (n : Z) : list byte :=
  map (fun k => digit (n / 10 ^ k mod 10)) [5; 4; 3; 2; 1; 0].

(** [m * 2^e * 10^6] rounded to the nearest integer, ties to even. *)
Definition round_micro (m : positive) (e : Z) : Z :=
  if 0 <=? e then Z.pos m * 2 ^ e * 10 ^ 6
  else
    let den := 2 ^ (- e) in
    let num := Z.pos m * 10 ^ 6 in
    let q := num / den in
    let r := num mod den in
    if (den <? 2 * r) || ((den =? 2 * r) && Z.odd q) then q + 1 else q.

Definition sign_bytes (s : bool) : list byte := if s then lit "-" else [].

Definition fmt_f (x : float) : list byte :=
  match Prim2SF x with
  | S754_nan => lit "nan"
  | S754_infinity s => sign_bytes s ++ lit "inf"
  | S754_zero s => sign_bytes s ++ lit "0.000000"
  | S754_finite s m e =>
      let u := round_micro m e in
      sign_bytes s ++ decimal (u / 10 ^ 6) ++ lit "." ++ six_digits (u mod 10 ^ 6)
  end.


(** ** The C data layout *)

Definition pointer := Z.

(** [unsigned long] and [usize] arithmetic: 64 bits, wrapping. *)
Definition wrap (z : Z) : Z := z mod 2 ^ 64.

(** Modelled from the spec: the header [bindings.h] that declares the types
    of the tree is generated at build time and is not part of the sources;
    the layout below is the one the specification lists ("Binary layout").
    [enum Tag { Null, True, False, Number, String, Array, Object }]; the
    discriminant is an integer, so a value read from memory can hold one
    that is none of the seven. *)
Module Tag.
Definition Null : Z := 0.
Definition True : Z := 1.
Definition False : Z := 2.
Definition Number : Z := 3.
Definition String : Z := 4.
Definition Array : Z := 5.
Definition Object : Z := 6.
End Tag.

(** Modelled from the spec: [struct JsonString { const uint8_t *buf; usize len; }]. *)
Module JsonString.
Record t := mk { buf : pointer; len : Z }.
End JsonString.

(** Modelled from the spec: [struct JsonArray { const Json *elems; usize len; }]. *)
Module JsonArray.
Record t := mk { elems : pointer; len : Z }.
End JsonArray.

(** Modelled from the spec: [struct JsonEntry { JsonString key; const Json *val; }]. *)
Module JsonEntry.
Record t := mk { key : JsonString.t; val : pointer }.
End JsonEntry.

(** Modelled from the spec: [struct JsonObject { const JsonEntry *elems; usize len; }]. *)
Module JsonObject.
Record t := mk { elems : pointer; len : Z }.
End JsonObject.

(** Modelled from the spec: [struct Json { Tag tag; union { double number;
    JsonString string; JsonArray array; JsonObject object; }; }].  The record
    carries every view of the union; the code reads the one its [switch]
    selects. *)
Record Json := mkJson {
  tag : Z;
  number : float;
  string : JsonString.t;
  array : JsonArray.t;
  object : JsonObject.t
}.

(** ** Memory

    An allocation is known by its base address.  The three kinds of
    allocation of a tree: byte buffers of strings, runs of [Json] cells
    (array payloads, and the single cell behind an entry's [val]), runs of
    [JsonEntry] cells. *)
Record Heap := mkHeap {
  bytes_at : gmap pointer (list byte);
  jsons_at : gmap pointer (list Json);
  entries_at : gmap pointer (list JsonEntry.t)
}.

(** [p[i]] in a typed memory: [None] when [p] is no allocation or [i] is
    past its end. *)
Definition cell {A} (mem : gmap pointer (list A)) (p : pointer) (i : nat) : option A :=
  match mem !! p with
  | Some cells => cells !! i
  | None => None
  end.

(** ** Effects: output and loads *)

Inductive Access :=
| LoadJson (p : pointer) (i : Z)
| LoadEntry (p : pointer) (i : Z)
| LoadStr (p : pointer).

Record Trace := mkTrace { stdout : list byte; loads : list Access }.

Definition no_trace : Trace := mkTrace [] [].

Definition trace_app (t1 t2 : Trace) : Trace :=
  mkTrace (stdout t1 ++ stdout t2) (loads t1 ++ loads t2).

(** A run ends normally with a value and its trace, or in a memory fault
    (undefined behaviour in C), or is cut because the recursion went deeper
    than [fuel] allows. *)
Inductive Result (A : Type) :=
| Ok (a : A) (t : Trace)
| Fault
| OutOfFuel.
Arguments Ok {A} a t.
Arguments Fault {A}.
Arguments OutOfFuel {A}.

Definition ret {A} (a : A) : Result A := Ok a no_trace.

Definition bind {A B} (m : Result A) (f : A -> Result B) : Result B :=
  match m with
  | Ok a t =>
      match f a with
      | Ok b t' => Ok b (trace_app t t')
      | Fault => Fault
      | OutOfFuel => OutOfFuel
      end
  | Fault => Fault
  | OutOfFuel => OutOfFuel
  end.

#[global] Instance Result_ret : MRet Result := @ret.
#[global] Instance Result_bind : MBind Result := fun A B f m => bind m f.

Definition printf (out : list byte) : Result unit := Ok tt (mkTrace out []).

Definition when (c : bool) (m : Result unit) : Result unit :=
  if c then m else ret tt.

Definition load_json (h : Heap) (p : pointer) (i : Z) : Result Json :=
  match cell (jsons_at h) p (Z.to_nat i) with
  | Some e => Ok e (mkTrace [] [LoadJson p i])
  | None => Fault
  end.

Definition load_entry (h : Heap) (p : pointer) (i : Z) : Result JsonEntry.t :=
  match cell (entries_at h) p (Z.to_nat i) with
  | Some e => Ok e (mkTrace [] [LoadEntry p i])
  | None => Fault
  end.

(** The [%s] conversion: the bytes at [p] up to the first null character. *)
Definition load_str (h : Heap) (p : pointer) : Result (list byte) :=
  match bytes_at h !! p with
  | Some mem =>
      match c_str mem with
      | Some s => Ok s (mkTrace [] [LoadStr p])
      | None => Fault
      end
  | None => Fault
  end.

(** [for (unsigned long i = i0; i < len; i++) body(i)], cut after [n]
    rounds. *)
Fixpoint for_loop_from (n : nat) (i len : Z) (body : Z -> Result unit) : Result unit :=
  match n with
  | O => ret tt
  | S n' =>
      if i <? len then body i ;; for_loop_from n' (wrap (i + 1)) len body
      else ret tt
  end.

(** [for (unsigned long i = 0; i < len; i++) body(i)].  The counter goes up
    from 0 by one, so the test [i < len] ends the loop after [len] rounds
    and the cut never does ([for_loop_rounds] below). *)
Definition for_loop (len : Z) (body : Z -> Result unit) : Result unit :=
  for_loop_from (Z.to_nat len) 0 len body.

(** The double quote character of the format strings of the source. *)
Definition DQUOTE : byte := x22.

(** ** [json_print]

    [void json_print(Json json)], the [switch] on [json.tag] case by case
    in the order of the source.  [fuel] bounds the depth of the recursion;
    the two recursive calls are the ones of the source, on [elems[i]] of an
    array and on the pointee of [elems[i].val] of an object. *)

Fixpoint json_print (fuel : nat) (h : Heap) (json : Json) : Result unit :=
  match fuel with
  | O => OutOfFuel
  | S fuel' =>
      if tag json =? Tag.Array then
        (* printf("["); *)
        printf (lit "[") ;;
        (* for (unsigned long i = 0; i < json.array.len; i++) *)
        for_loop (JsonArray.len (array json)) (fun i =>
          (* Json e = json.array.elems[i]; *)
          e ← load_json h (JsonArray.elems (array json)) i;
          (* json_print(e); *)
          json_print fuel' h e ;;
          (* if (i < json.array.len - 1) printf(", "); *)
          when (i <? wrap (JsonArray.len (array json) - 1)) (printf (lit ", "))) ;;
        (* printf("]"); *)
        printf (lit "]")
      else if tag json =? Tag.Number then
        (* printf("%f", json.number); *)
        printf (fmt_f (number json))
      else if tag json =? Tag.Object then
        (* printf("{"); *)
        printf (lit "{") ;;
        (* for (unsigned long i = 0; i < json.object.len; i++) *)
        for_loop (JsonObject.len (object json)) (fun i =>
          (* struct JsonString s = json.object.elems[i].key; *)
          s ← (ent ← load_entry h (JsonObject.elems (object json)) i;
               mret (JsonEntry.key ent));
          (* printf("%s : ", s.buf); *)
          str ← load_str h (JsonString.buf s);
          printf (str ++ lit " : ") ;;
          (* json_print of the value json.object.elems[i].val points to *)
          ent ← load_entry h (JsonObject.elems (object json)) i;
          v ← load_json h (JsonEntry.val ent) 0;
          json_print fuel' h v ;;
          (* if (i < json.object.len - 1) printf(", "); *)
          when (i <? wrap (JsonObject.len (object json) - 1)) (printf (lit ", "))) ;;
        (* printf("}"); *)
        printf (lit "}")
      else if tag json =? Tag.String then
        (* printf of json.string.buf under %s between two double quotes *)
        str ← load_str h (JsonString.buf (string json));
        printf ([DQUOTE] ++ str ++ [DQUOTE])
      else if tag json =? Tag.True then
        printf (lit "true")
      else if tag json =? Tag.False then
        printf (lit "false")
      else if tag json =? Tag.Null then
        printf (lit "null")
      else
        (* default: break; *)
        ret tt
  end.

(** What a run wrote, when it ended normally. *)
Definition emitted (r : Result unit) : option (list byte) :=
  match r with
  | Ok _ t => Some (stdout t)
  | _ => None
  end.

(** ** The example document of [main], as [json_deserialize] lays it out *)

Definition mk_leaf (tg : Z) : Json :=
  mkJson tg 0%float (JsonString.mk 0 0) (JsonArray.mk 0 0) (JsonObject.mk 0 0).
Definition mk_num (x : float) : Json :=
  mkJson Tag.Number x (JsonString.mk 0 0) (JsonArray.mk 0 0) (JsonObject.mk 0 0).
Definition mk_str (p : pointer) (n : Z) : Json :=
  mkJson Tag.String 0%float (JsonString.mk p n) (JsonArray.mk 0 0) (JsonObject.mk 0 0).
Definition mk_arr (p : pointer) (n : Z) : Json :=
  mkJson Tag.Array 0%float (JsonString.mk 0 0) (JsonArray.mk p n) (JsonObject.mk 0 0).
Definition mk_obj (p : pointer) (n : Z) : Json :=
  mkJson Tag.Object 0%float (JsonString.mk 0 0) (JsonArray.mk 0 0) (JsonObject.mk p n).

Definition c_string (s : String.string) : list byte := lit s ++ [NUL].

Definition main_root_entries : list JsonEntry.t :=
  [JsonEntry.mk (JsonString.mk 1000 4) 2000;
   JsonEntry.mk (JsonString.mk 1008 5) 2100;
   JsonEntry.mk (JsonString.mk 1016 4) 2200;
   JsonEntry.mk (JsonString.mk 1024 5) 2300;
   JsonEntry.mk (JsonString.mk 1032 6) 2600].
Definition main_array_cells : list Json := [mk_num 12; mk_num 12; mk_obj 3100 1].
Definition main_inner_entry : JsonEntry.t := JsonEntry.mk (JsonString.mk 1040 5) 2500.
Definition main_object_entry : JsonEntry.t := JsonEntry.mk (JsonString.mk 1048 1) 2700.

Definition main_heap : Heap :=
  mkHeap
    (list_to_map
       [(1000, c_string "true"); (1008, c_string "false"); (1016, c_string "null");
        (1024, c_string "array"); (1032, c_string "object"); (1040, c_string "inner");
        (1048, c_string "1")])
    (list_to_map
       [(2000, [mk_leaf Tag.True]); (2100, [mk_leaf Tag.False]); (2200, [mk_leaf Tag.Null]);
        (2300, [mk_arr 2400 3]); (2400, main_array_cells);
        (2500, [mk_num 12]); (2600, [mk_obj 3200 1]); (2700, [mk_num 1])])
    (list_to_map
       [(3000, main_root_entries); (3100, [main_inner_entry]); (3200, [main_object_entry])]).

Definition main_json : Json := mk_obj 3000 5.


(** [join sep parts]: the parts in order, [sep] between consecutive parts,
    none after the last. *)
Fixpoint join (sep : list byte) (parts : list (list byte)) : list byte :=
  match parts with
  | [] => []
  | p :: ps =>
      match ps with
      | [] => p
      | _ :: _ => p ++ sep ++ join sep ps
      end
  end.

Definition brackets (l r : String.string) (outs : list (list byte)) : list byte :=
  lit l ++ join (lit ", ") outs ++ lit r.

(** What one entry of an object contributes: [key : value]. *)
Definition entry_text (key out : list byte) : list byte := key ++ lit " : " ++ out.

(** The text of the entries, each given by the bytes of its key and the
    rendering of its value: the key as far as its first null character,
    then [ : ], then the value. *)
Definition entry_texts (items : list (list byte * list byte)) : list (list byte) :=
  (fun item => entry_text (until_nul (fst item)) (snd item)) <$> items.

(** ** Well-formed trees in memory

    The invariants of the specification's data model, stated on the heap. *)

(** A [usize] value. *)
Definition usize (n : Z) : Prop := 0 <= n < 2 ^ 64.

(** The string [s] holds the bytes [content]: [len] of them at [buf],
    followed by the terminating null character. *)
Definition string_at (h : Heap) (s : JsonString.t) (content : list byte) : Prop :=
  bytes_at h !! JsonString.buf s = Some (content ++ [NUL]) /\
  Z.of_nat (length content) = JsonString.len s.

(** The [len] cells [p[0] .. p[len-1]] are [xs].  Nothing is asked of [p]
    when [len] is 0. *)
Definition cells_at {A} (mem : gmap pointer (list A)) (p : pointer) (len : Z)
    (xs : list A) : Prop :=
  usize len /\ Z.of_nat (length xs) = len /\
  forall (k : nat) (x : A), xs !! k = Some x -> cell mem p k = Some x.

Definition array_at (h : Heap) (a : JsonArray.t) (cells : list Json) : Prop :=
  cells_at (jsons_at h) (JsonArray.elems a) (JsonArray.len a) cells.

Definition object_at (h : Heap) (o : JsonObject.t) (entries : list JsonEntry.t) : Prop :=
  cells_at (entries_at h) (JsonObject.elems o) (JsonObject.len o) entries.

(** The entry [ent] has the key bytes [content] and its handle [val] points
    to the value [v]. *)
Definition entry_at (h : Heap) (ent : JsonEntry.t) (content : list byte) (v : Json) : Prop :=
  string_at h (JsonEntry.key ent) content /\
  cell (jsons_at h) (JsonEntry.val ent) 0 = Some v.

(** [renders h json out]: with stack enough, the call [json_print(json)]
    returns and has written exactly [out]. *)
Definition renders (h : Heap) (json : Json) (out : list byte) : Prop :=
  exists fuel, emitted (json_print fuel h json) = Some out.

(** [tree h d json]: the pointers below [json] span a finite tree of
    height at most [d], every node of which is laid out as the data model
    requires. *)
Inductive tree (h : Heap) : nat -> Json -> Prop :=
| tree_scalar d json :
    tag json <> Tag.String -> tag json <> Tag.Array -> tag json <> Tag.Object ->
    tree h d json
| tree_string d json content :
    tag json = Tag.String -> string_at h (string json) content ->
    tree h d json
| tree_array d json cells :
    tag json = Tag.Array -> array_at h (array json) cells ->
    Forall (tree h d) cells ->
    tree h (S d) json
| tree_object d json entries :
    tag json = Tag.Object -> object_at h (object json) entries ->
    Forall (fun ent => exists content v, entry_at h ent content v /\ tree h d v) entries ->
    tree h (S d) json.

Definition finite_tree (h : Heap) (json : Json) : Prop := exists d, tree h d json.

(** [same_tree h1 h2 d j1 j2]: the tree below [j1] in [h1] and the tree
    below [j2] in [h2] are structurally equal: same tags, same payloads,
    same lengths, same pointed-to contents; addresses are free to differ. *)
Inductive same_tree (h1 h2 : Heap) : nat -> Json -> Json -> Prop :=
| same_scalar d j1 j2 :
    tag j1 = tag j2 ->
    tag j1 <> Tag.Number -> tag j1 <> Tag.String ->
    tag j1 <> Tag.Array -> tag j1 <> Tag.Object ->
    same_tree h1 h2 d j1 j2
| same_number d j1 j2 :
    tag j1 = Tag.Number -> tag j2 = Tag.Number -> number j1 = number j2 ->
    same_tree h1 h2 d j1 j2
| same_string d j1 j2 content :
    tag j1 = Tag.String -> tag j2 = Tag.String ->
    string_at h1 (string j1) content -> string_at h2 (string j2) content ->
    same_tree h1 h2 d j1 j2
| same_array d j1 j2 cells1 cells2 :
    tag j1 = Tag.Array -> tag j2 = Tag.Array ->
    array_at h1 (array j1) cells1 -> array_at h2 (array j2) cells2 ->
    Forall2 (same_tree h1 h2 d) cells1 cells2 ->
    same_tree h1 h2 (S d) j1 j2
| same_object d j1 j2 entries1 entries2 :
    tag j1 = Tag.Object -> tag j2 = Tag.Object ->
    object_at h1 (object j1) entries1 -> object_at h2 (object j2) entries2 ->
    Forall2 (fun e1 e2 => exists content v1 v2,
               entry_at h1 e1 content v1 /\ entry_at h2 e2 content v2 /\
               same_tree h1 h2 d v1 v2) entries1 entries2 ->
    same_tree h1 h2 (S d) j1 j2.

(** ** More layouts *)

Definition main_inner_array : Json := mk_arr 2400 3.

Definition no_heap : Heap := mkHeap ∅ ∅ ∅.

(** A string with a quote, a backslash and a line feed, and one with an
    embedded null character. *)
Definition hazard_bytes : list byte := [x61; x22; x5c; x0a; x62].
Definition nul_bytes : list byte := [x61; x00; x62].

Definition strings_heap : Heap :=
  mkHeap (list_to_map [(8, hazard_bytes ++ [NUL]); (16, nul_bytes ++ [NUL])])
         (list_to_map [(32, [mk_leaf Tag.Null])])
         (list_to_map [(24, [JsonEntry.mk (JsonString.mk 16 3) 32])]).

Definition nul_key_object : Json := mk_obj 24 1.
Definition nul_key_entry : JsonEntry.t := JsonEntry.mk (JsonString.mk 16 3) 32.

(** An array that is its own only element. *)
Definition loop_heap : Heap := mkHeap ∅ (list_to_map [(64, [mk_arr 64 1])]) ∅.

(** The array [["hi", 1]] laid out twice, at different addresses and with
    different leftovers in the views of the union the tags do not select. *)
Definition here_heap : Heap :=
  mkHeap (list_to_map [(8, c_string "hi")])
         (list_to_map [(128, [mk_str 8 2; mk_num 1])]) ∅.
Definition here_json : Json := mk_arr 128 2.

Definition there_cells : list Json :=
  [mkJson Tag.String 7 (JsonString.mk 4096 2) (JsonArray.mk 4096 2) (JsonObject.mk 4096 2);
   mkJson Tag.Number 1 (JsonString.mk 77 78) (JsonArray.mk 79 80) (JsonObject.mk 81 82)].
Definition there_heap : Heap :=
  mkHeap (list_to_map [(4096, c_string "hi")])
         (list_to_map [(8192, there_cells)]) ∅.
Definition there_json : Json :=
  mkJson Tag.Array 0 (JsonString.mk 8192 2) (JsonArray.mk 8192 2) (JsonObject.mk 8192 2).

(** ** Comparing runs *)

(** [r1 ⊑ r2]: whatever [r1] returns normally, [r2] returns too. *)
Definition res_le {A} (r1 r2 : Result A) : Prop :=
  forall a t, r1 = Ok a t -> r2 = Ok a t.

(** ** Documents

    The value a tree stands for, and the text [json_print] gives it, as a
    function of the value alone.  [render] is the reference the code is
    compared with in [json_print_render]; it follows the [switch] of the
    source case by case. *)

Inductive Doc :=
| DNull
| DTrue
| DFalse
| DNumber (x : float)
| DString (content : list byte)
| DArray (items : list Doc)
| DObject (members : list (list byte * Doc)).

Fixpoint render (doc : Doc) : list byte :=
  match doc with
  | DNull => lit "null"
  | DTrue => lit "true"
  | DFalse => lit "false"
  | DNumber x => fmt_f x
  | DString content => [DQUOTE] ++ until_nul content ++ [DQUOTE]
  | DArray items => lit "[" ++ join (lit ", ") (render <$> items) ++ lit "]"
  | DObject members =>
      lit "{"
      ++ join (lit ", ")
           ((fun m => entry_text (until_nul (fst m)) (render (snd m))) <$> members)
      ++ lit "}"
  end.

(** [layout h d json doc]: the tree below [json], of height at most [d],
    is the document [doc] laid out as the data model requires. *)
Inductive layout (h : Heap) : nat -> Json -> Doc -> Prop :=
| layout_null d json :
    tag json = Tag.Null -> layout h d json DNull
| layout_true d json :
    tag json = Tag.True -> layout h d json DTrue
| layout_false d json :
    tag json = Tag.False -> layout h d json DFalse
| layout_number d json :
    tag json = Tag.Number -> layout h d json (DNumber (number json))
| layout_string d json content :
    tag json = Tag.String -> string_at h (string json) content ->
    layout h d json (DString content)
| layout_array d json cells items :
    tag json = Tag.Array -> array_at h (array json) cells ->
    Forall2 (layout h d) cells items ->
    layout h (S d) json (DArray items)
| layout_object d json entries members :
    tag json = Tag.Object -> object_at h (object json) entries ->
    Forall2 (fun ent m => exists v, entry_at h ent (fst m) v /\ layout h d v (snd m))
            entries members ->
    layout h (S d) json (DObject members).

(** The document of [main]. *)
Definition main_doc : Doc :=
  DObject
    [(lit "true", DTrue); (lit "false", DFalse); (lit "null", DNull);
     (lit "array", DArray [DNumber 12; DNumber 12; DObject [(lit "inner", DNumber 12)]]);
     (lit "object", DObject [(lit "1", DNumber 1)])].

(** Two documents the printer does not tell apart: the array of the one
    string [a", "b] and the array of the two strings [a] and [b]. *)
Definition glued_doc : Doc := DArray [DString [x61; x22; x2c; x20; x22; x62]].
Definition split_doc : Doc := DArray [DString [x61]; DString [x62]].

Definition glued_heap : Heap :=
  mkHeap (list_to_map [(8, [x61; x22; x2c; x20; x22; x62; NUL]); (16, [x61; NUL]);
                       (24, [x62; NUL])])
         (list_to_map [(128, [mk_str 8 6]); (256, [mk_str 16 1; mk_str 24 1])]) ∅.

(** ** Postconditions of a run *)

(** [post Q r]: when [r] returns, its value satisfies [Q] and it has
    written no null character. *)
Definition post {A} (Q : A -> Prop) (r : Result A) : Prop :=
  forall a t, r = Ok a t -> Q a /\ NUL ∉ stdout t.

(** [h] is part of [h']: every allocation of [h] is in [h'], unchanged. *)
Definition heap_sub (h h' : Heap) : Prop :=
  bytes_at h ⊆ bytes_at h' /\ jsons_at h ⊆ jsons_at h' /\ entries_at h ⊆ entries_at h'.

(** [here_heap] with the allocations of [there_heap] added. *)
Definition both_heap : Heap :=
  mkHeap (<[4096 := c_string "hi"]> (bytes_at here_heap))
         (<[8192 := there_cells]> (jsons_at here_heap))
         (entries_at here_heap).

(** A string buffer without terminator, a string whose [len] is wrong, an
    array whose [len] is past its allocation, an object whose entry holds a
    dangling [val]. *)
Definition broken_heap : Heap :=
  mkHeap (list_to_map [(8, lit "hi"); (16, c_string "key")])
         (list_to_map [(128, [mk_leaf Tag.Null; mk_leaf Tag.True])])
         (list_to_map [(256, [JsonEntry.mk (JsonString.mk 16 3) 128;
                              JsonEntry.mk (JsonString.mk 16 3) 512])]).


(** * Properties *)

(** ** C strings *)

Lemma c_str_terminated (s rest : list byte) :
  c_str (s ++ NUL :: rest) = Some (until_nul s).
Proof.
  induction s as [|c s IH]; simpl; [reflexivity|].
  destruct (Byte.eqb c NUL); [reflexivity|]. now rewrite IH.
Qed.

Lemma until_nul_id (s : list byte) : NUL ∉ s -> until_nul s = s.
Proof.
  induction s as [|c s IH]; intros Hs; simpl; [reflexivity|].
  destruct (Byte.eqb c NUL) eqn:E.
  - apply Byte.byte_dec_bl in E. subst c. exfalso. apply Hs. left.
  - f_equal. apply IH. intros Hin. apply Hs. now right.
Qed.

Lemma until_nul_prefix (s : list byte) : until_nul s `prefix_of` s.
Proof.
  induction s as [|c s IH]; simpl; [reflexivity|].
  destruct (Byte.eqb c NUL); [apply prefix_nil|]. now apply prefix_cons.
Qed.

Lemma until_nul_no_nul (s : list byte) : NUL ∉ until_nul s.
Proof.
  induction s as [|c s IH]; simpl; [apply not_elem_of_nil|].
  destruct (Byte.eqb c NUL) eqn:E; [apply not_elem_of_nil|].
  apply not_elem_of_cons. split; [|exact IH].
  intros Hc. rewrite <- Hc in E. discriminate E.
Qed.

Lemma load_str_string_at (h : Heap) (s : JsonString.t) (content : list byte) :
  string_at h s content ->
  load_str h (JsonString.buf s) = Ok (until_nul content) (mkTrace [] [LoadStr (JsonString.buf s)]).
Proof.
  intros [Hmem _]. unfold load_str. rewrite Hmem, c_str_terminated. reflexivity.
Qed.

(** ** The writer monad *)

Lemma bind_unfold {A B} (m : Result A) (f : A -> Result B) : m ≫= f = bind m f.
Proof. reflexivity. Qed.

Lemma emitted_bind {A} (m : Result A) (f : A -> Result unit) :
  emitted (m ≫= f) =
  match m with
  | Ok a t => (fun o => stdout t ++ o) <$> emitted (f a)
  | _ => None
  end.
Proof.
  rewrite bind_unfold. destruct m as [a t| |]; simpl; [|reflexivity..].
  destruct (f a); reflexivity.
Qed.

Lemma emitted_seq (m k : Result unit) :
  emitted (m ;; k) = o1 ← emitted m; o2 ← emitted k; Some (o1 ++ o2).
Proof.
  rewrite emitted_bind. destruct m as [[] t| |]; simpl; [|reflexivity..].
  destruct (emitted k); reflexivity.
Qed.

Lemma emitted_printf (out : list byte) : emitted (printf out) = Some out.
Proof. reflexivity. Qed.

Lemma emitted_when_printf (c : bool) (out : list byte) :
  emitted (when c (printf out)) = Some (if c then out else []).
Proof. destruct c; reflexivity. Qed.

Lemma res_le_refl {A} (r : Result A) : res_le r r.
Proof. intros a t H. exact H. Qed.

Lemma res_le_bind {A B} (m1 m2 : Result A) (f1 f2 : A -> Result B) :
  res_le m1 m2 -> (forall a, res_le (f1 a) (f2 a)) ->
  res_le (m1 ≫= f1) (m2 ≫= f2).
Proof.
  intros Hm Hf b t. rewrite !bind_unfold.
  destruct m1 as [a1 t1| |]; simpl; try discriminate.
  rewrite (Hm a1 t1 eq_refl). simpl.
  destruct (f1 a1) as [b1 t1'| |] eqn:E1; try discriminate.
  rewrite (Hf a1 b1 t1' E1). trivial.
Qed.

Lemma res_le_for_loop_from (n : nat) (i len : Z) (body1 body2 : Z -> Result unit) :
  (forall j, res_le (body1 j) (body2 j)) ->
  res_le (for_loop_from n i len body1) (for_loop_from n i len body2).
Proof.
  intros Hbody. revert i. induction n as [|n IH]; intros i; simpl.
  - apply res_le_refl.
  - destruct (i <? len); [|apply res_le_refl].
    apply res_le_bind; [apply Hbody|]. intros _. apply IH.
Qed.

Create HintDb res_le.
#[local] Hint Resolve res_le_refl : res_le.

Ltac res_le_step :=
  match goal with
  | |- res_le (if ?c then _ else _) _ => destruct c
  | |- res_le (_ ≫= _) (_ ≫= _) => apply res_le_bind; [|intros ?]
  | |- res_le (for_loop _ _) (for_loop _ _) =>
      unfold for_loop; apply res_le_for_loop_from; intros ?
  | |- res_le _ _ => solve [auto with res_le]
  end.

(** ** More stack never changes a run that returned *)

Lemma json_print_mono (h : Heap) (fuel fuel' : nat) (json : Json) :
  (fuel <= fuel')%nat ->
  res_le (json_print fuel h json) (json_print fuel' h json).
Proof.
  revert fuel' json. induction fuel as [|fuel IH]; intros fuel' json Hle.
  - intros a t H. discriminate H.
  - destruct fuel' as [|fuel']; [lia|].
    assert (IH' : forall j, res_le (json_print fuel h j) (json_print fuel' h j))
      by (intros j; apply IH; lia).
    cbn [json_print]. repeat res_le_step.
Qed.

Lemma emitted_mono (h : Heap) (fuel fuel' : nat) (json : Json) (out : list byte) :
  (fuel <= fuel')%nat ->
  emitted (json_print fuel h json) = Some out ->
  emitted (json_print fuel' h json) = Some out.
Proof.
  intros Hle H.
  destruct (json_print fuel h json) as [[] t| |] eqn:E; try discriminate H.
  now rewrite (json_print_mono h fuel fuel' json Hle tt t E).
Qed.

Lemma renders_unique (h : Heap) (json : Json) (out1 out2 : list byte) :
  renders h json out1 -> renders h json out2 -> out1 = out2.
Proof.
  intros [f1 H1] [f2 H2].
  apply (emitted_mono h f1 (f1 `max` f2)%nat) in H1; [|lia].
  apply (emitted_mono h f2 (f1 `max` f2)%nat) in H2; [|lia].
  congruence.
Qed.

(** Finitely many runs share one stack bound. *)
Lemma Forall2_common_fuel {A B} (R : nat -> A -> B -> Prop) (xs : list A) (ys : list B) :
  (forall f f' x y, (f <= f')%nat -> R f x y -> R f' x y) ->
  Forall2 (fun x y => exists f, R f x y) xs ys ->
  exists f, Forall2 (R f) xs ys.
Proof.
  intros Hmono. induction 1 as [|x y xs ys [f Hxy] _ [f' IH]].
  - exists 0%nat. constructor.
  - exists (f `max` f')%nat. constructor.
    + apply (Hmono f); [lia|exact Hxy].
    + eapply Forall2_impl; [exact IH|]. intros x' y' H'.
      apply (Hmono f'); [lia|exact H'].
Qed.

Lemma renders_common_fuel (h : Heap) (cells : list Json) (outs : list (list byte)) :
  Forall2 (renders h) cells outs ->
  exists fuel,
    Forall2 (fun e o => emitted (json_print fuel h e) = Some o) cells outs.
Proof.
  apply (Forall2_common_fuel (fun f e o => emitted (json_print f h e) = Some o)).
  intros f f' e o Hle. now apply emitted_mono.
Qed.

(** ** The loops *)

(** Allowing the loop more than [len - i] rounds changes nothing: it is
    the test [i < len] that ends it. *)
Lemma for_loop_rounds (n : nat) (i len : Z) (body : Z -> Result unit) :
  0 <= i <= len -> len < 2 ^ 64 ->
  (Z.to_nat (len - i) <= n)%nat ->
  for_loop_from n i len body = for_loop_from (Z.to_nat (len - i)) i len body.
Proof.
  revert i. induction n as [|n IH]; intros i Hi Hmax Hn.
  - now replace (Z.to_nat (len - i)) with 0%nat by lia.
  - destruct (Z.ltb_spec i len) as [Hlt|Hge].
    + replace (Z.to_nat (len - i)) with (S (Z.to_nat (len - (i + 1)))) by lia.
      cbn [for_loop_from].
      replace (wrap (i + 1)) with (i + 1) by (unfold wrap; rewrite Z.mod_small; lia).
      rewrite (IH (i + 1)) by lia. reflexivity.
    + replace (Z.to_nat (len - i)) with 0%nat by lia.
      cbn [for_loop_from]. destruct (Z.ltb_spec i len); [lia|reflexivity].
Qed.

Lemma for_loop_from_emitted (sep : list byte) (len : Z) (body : Z -> Result unit)
    (E : nat -> option (list byte)) (n : nat) (i : nat) :
  len < 2 ^ 64 ->
  Z.of_nat i + Z.of_nat n = len ->
  (forall k : nat, Z.of_nat k < len ->
     emitted (body (Z.of_nat k)) =
     (fun o => o ++ if Z.of_nat k <? len - 1 then sep else []) <$> E k) ->
  emitted (for_loop_from n (Z.of_nat i) len body) = join sep <$> mapM E (seq i n).
Proof.
  intros Hmax Hlen Hbody. revert i Hlen.
  induction n as [|n IH]; intros i Hlen; [reflexivity|].
  cbn [for_loop_from seq mapM].
  destruct (Z.ltb_spec (Z.of_nat i) len) as [Hi|Hi]; [|lia].
  rewrite emitted_bind.
  assert (Hw : wrap (Z.of_nat i + 1) = Z.of_nat (S i)).
  { unfold wrap. rewrite Z.mod_small; lia. }
  rewrite Hw, (IH (S i)) by lia.
  pose proof (Hbody i Hi) as Hb.
  destruct (body (Z.of_nat i)) as [[] t| |]; simpl in Hb;
    destruct (E i) as [o|]; simpl in Hb; try discriminate Hb; try reflexivity.
  injection Hb as Hb. rewrite Hb. simpl.
  destruct (mapM E (seq (S i) n)) as [outs|] eqn:Em; simpl; [|reflexivity].
  f_equal. apply length_mapM in Em. rewrite length_seq in Em.
  destruct (Z.ltb_spec (Z.of_nat i) (len - 1)); destruct outs as [|o' outs];
    simpl in Em; try lia.
  - now rewrite <- app_assoc.
  - now rewrite !app_nil_r.
Qed.

Lemma for_loop_emitted (sep : list byte) (len : Z) (body : Z -> Result unit)
    (E : nat -> option (list byte)) :
  usize len ->
  (forall k : nat, Z.of_nat k < len ->
     emitted (body (Z.of_nat k)) =
     (fun o => o ++ if Z.of_nat k <? len - 1 then sep else []) <$> E k) ->
  emitted (for_loop len body) = join sep <$> mapM E (seq 0 (Z.to_nat len)).
Proof.
  intros [H0 Hmax] Hbody. unfold for_loop.
  apply (for_loop_from_emitted sep len body E (Z.to_nat len) 0); [exact Hmax|lia|exact Hbody].
Qed.

(** Reading the cells one index after the other is going through the list
    of cells. *)
Lemma mapM_seq_cells {A B} (f : nat -> option B) (g : A -> option B) (xs : list A) (i : nat) :
  (forall (k : nat) (x : A), xs !! k = Some x -> f (i + k)%nat = g x) ->
  mapM f (seq i (length xs)) = mapM g xs.
Proof.
  revert i. induction xs as [|x xs IH]; intros i H; [reflexivity|].
  cbn [length seq mapM].
  rewrite <- (H 0%nat x eq_refl), Nat.add_0_r.
  rewrite (IH (S i)); [reflexivity|].
  intros k y Hk. rewrite <- (H (S k) y Hk). f_equal. lia.
Qed.

Lemma mapM_Forall2_eq {A1 A2 B} (f : A1 -> option B) (g : A2 -> option B)
    (xs : list A1) (ys : list A2) :
  Forall2 (fun x y => f x = g y) xs ys -> mapM f xs = mapM g ys.
Proof.
  induction 1 as [|x y xs ys Hxy _ IH]; [reflexivity|].
  cbn [mapM]. now rewrite Hxy, IH.
Qed.

(** ** One level of [json_print] on a well-formed node *)

Lemma wrap_pred (len : Z) : usize len -> 0 < len -> wrap (len - 1) = len - 1.
Proof. intros [H0 Hmax] Hpos. unfold wrap. apply Z.mod_small. lia. Qed.

(** Settles the tests of the [switch] once the discriminant is known. *)
Ltac switch_on H :=
  cbn [json_print]; rewrite H;
  repeat match goal with
         | |- context [?a =? ?b] =>
             let c := eval vm_compute in (a =? b) in change (a =? b) with c
         end;
  cbv iota.

Ltac switch_not H :=
  rewrite (proj2 (Z.eqb_neq _ _) H).

Section Node.

Variable fuel : nat.
Variable h : Heap.

Lemma emitted_array (json : Json) (cells : list Json) :
  tag json = Tag.Array ->
  array_at h (array json) cells ->
  emitted (json_print (S fuel) h json) =
  brackets "[" "]" <$> mapM (fun e => emitted (json_print fuel h e)) cells.
Proof.
  intros Htag (Hu & Hlen & Hcells).
  cbn [json_print]. rewrite Htag. change (Tag.Array =? Tag.Array) with true. cbv iota.
  rewrite !emitted_seq, emitted_printf.
  rewrite (for_loop_emitted (lit ", ") _ _
             (fun k => e ← cell (jsons_at h) (JsonArray.elems (array json)) k;
                       emitted (json_print fuel h e)) Hu).
  - replace (Z.to_nat (JsonArray.len (array json))) with (length cells) by lia.
    rewrite (mapM_seq_cells _ (fun e => emitted (json_print fuel h e)) cells 0).
    + destruct (mapM _ cells); reflexivity.
    + intros k e Hk. simpl. now rewrite (Hcells k e Hk).
  - intros k Hk. unfold load_json. rewrite Nat2Z.id.
    rewrite wrap_pred by (trivial; lia).
    destruct (cell _ _ k) as [e|]; [|reflexivity].
    rewrite emitted_bind, emitted_seq, emitted_when_printf. simpl.
    destruct (emitted (json_print fuel h e)); reflexivity.
Qed.

Lemma emitted_object (json : Json) (entries : list JsonEntry.t) :
  tag json = Tag.Object ->
  object_at h (object json) entries ->
  emitted (json_print (S fuel) h json) =
  brackets "{" "}" <$>
    mapM (fun ent =>
            key ← bytes_at h !! JsonString.buf (JsonEntry.key ent) ≫= c_str;
            v ← cell (jsons_at h) (JsonEntry.val ent) 0;
            out ← emitted (json_print fuel h v);
            Some (entry_text key out)) entries.
Proof.
  intros Htag (Hu & Hlen & Hcells).
  cbn [json_print]. rewrite Htag. change (Tag.Object =? Tag.Array) with false.
  change (Tag.Object =? Tag.Number) with false.
  change (Tag.Object =? Tag.Object) with true. cbv iota.
  rewrite !emitted_seq, emitted_printf.
  rewrite (for_loop_emitted (lit ", ") _ _
             (fun k => ent ← cell (entries_at h) (JsonObject.elems (object json)) k;
                       key ← bytes_at h !! JsonString.buf (JsonEntry.key ent) ≫= c_str;
                       v ← cell (jsons_at h) (JsonEntry.val ent) 0;
                       out ← emitted (json_print fuel h v);
                       Some (entry_text key out)) Hu).
  - replace (Z.to_nat (JsonObject.len (object json))) with (length entries) by lia.
    rewrite (mapM_seq_cells _
               (fun ent =>
                  key ← bytes_at h !! JsonString.buf (JsonEntry.key ent) ≫= c_str;
                  v ← cell (jsons_at h) (JsonEntry.val ent) 0;
                  out ← emitted (json_print fuel h v);
                  Some (entry_text key out)) entries 0).
    + destruct (mapM _ entries); reflexivity.
    + intros k e Hk. simpl. now rewrite (Hcells k e Hk).
  - intros k Hk. unfold load_entry, load_str, load_json. rewrite Nat2Z.id.
    rewrite wrap_pred by (trivial; lia).
    destruct (cell _ _ k) as [ent|]; [|reflexivity]. simpl.
    destruct (bytes_at h !! _) as [mem|]; [|reflexivity]. simpl.
    destruct (c_str mem) as [key|]; [|reflexivity]. simpl.
    destruct (cell (jsons_at h) _ _) as [v|]; [|reflexivity]. simpl.
    destruct (json_print fuel h v) as [[] t| |]; [|reflexivity..]. simpl.
    destruct (_ <? _); simpl; unfold entry_text;
      rewrite ?app_nil_r, <- ?app_assoc; reflexivity.
Qed.

Lemma emitted_string (json : Json) (content : list byte) :
  tag json = Tag.String ->
  string_at h (string json) content ->
  emitted (json_print (S fuel) h json) = Some ([DQUOTE] ++ until_nul content ++ [DQUOTE]).
Proof.
  intros Htag Hstr. switch_on Htag.
  now rewrite (load_str_string_at h _ content Hstr).
Qed.

(** A node that is no string, array or object is printed without a look at
    memory. *)
Lemma json_print_scalar (json : Json) :
  tag json <> Tag.String -> tag json <> Tag.Array -> tag json <> Tag.Object ->
  exists out, json_print (S fuel) h json = Ok tt (mkTrace out []).
Proof.
  intros Hs Ha Ho. cbn [json_print]. switch_not Hs. switch_not Ha. switch_not Ho.
  repeat match goal with |- context [if ?c then _ else _] => destruct c end;
    eexists; reflexivity.
Qed.

Lemma entry_emitted (ent : JsonEntry.t) (key : list byte) (v : Json) :
  entry_at h ent key v ->
  (k ← bytes_at h !! JsonString.buf (JsonEntry.key ent) ≫= c_str;
   v' ← cell (jsons_at h) (JsonEntry.val ent) 0;
   out ← emitted (json_print fuel h v');
   Some (entry_text k out))
  = entry_text (until_nul key) <$> emitted (json_print fuel h v).
Proof.
  intros [[Hmem _] Hval]. rewrite Hmem. simpl.
  rewrite c_str_terminated. simpl. rewrite Hval. reflexivity.
Qed.

End Node.

(** ** Scalars *)

(** C4: a Null node is printed as [null], a True node as [true], a False
    node as [false], and nothing else is written or read. *)
Theorem json_print_literals (fuel : nat) (h : Heap) (json : Json) :
  (tag json = Tag.Null -> json_print (S fuel) h json = Ok tt (mkTrace (lit "null") [])) /\
  (tag json = Tag.True -> json_print (S fuel) h json = Ok tt (mkTrace (lit "true") [])) /\
  (tag json = Tag.False -> json_print (S fuel) h json = Ok tt (mkTrace (lit "false") [])).
Proof.
  repeat split; intros Htag; switch_on Htag; reflexivity.
Qed.

Lemma json_print_literals_witness :
  json_print 1 main_heap (mk_leaf Tag.Null) = Ok tt (mkTrace (lit "null") []) /\
  json_print 1 main_heap (mk_leaf Tag.True) = Ok tt (mkTrace (lit "true") []) /\
  json_print 1 main_heap (mk_leaf Tag.False) = Ok tt (mkTrace (lit "false") []).
Proof.
  split; [|split].
  - apply (json_print_literals 0 main_heap (mk_leaf Tag.Null)). reflexivity.
  - apply (json_print_literals 0 main_heap (mk_leaf Tag.True)). reflexivity.
  - apply (json_print_literals 0 main_heap (mk_leaf Tag.False)). reflexivity.
Defined.

(** C5: a Number node holding the double 12.0 is printed as [12.000000]. *)
Theorem json_print_number_12 (fuel : nat) (h : Heap) (json : Json) :
  tag json = Tag.Number ->
  number json = 12%float ->
  json_print (S fuel) h json = Ok tt (mkTrace (lit "12.000000") []).
Proof.
  intros Htag Hnum. switch_on Htag. rewrite Hnum. reflexivity.
Qed.

Lemma json_print_number_12_witness :
  json_print 1 main_heap (mk_num 12) = Ok tt (mkTrace (lit "12.000000") []).
Proof.
  apply (json_print_number_12 0 main_heap (mk_num 12)); reflexivity.
Defined.

(** C6: a node whose discriminant is none of the seven enumerators makes
    [json_print] return at once: nothing is written, nothing is read, no
    error. *)
Theorem json_print_unknown_tag (fuel : nat) (h : Heap) (json : Json) :
  tag json <> Tag.Null -> tag json <> Tag.True -> tag json <> Tag.False ->
  tag json <> Tag.Number -> tag json <> Tag.String ->
  tag json <> Tag.Array -> tag json <> Tag.Object ->
  json_print (S fuel) h json = Ok tt no_trace.
Proof.
  intros Hnull Htrue Hfalse Hnum Hstr Harr Hobj. cbn [json_print].
  switch_not Hnull. switch_not Htrue. switch_not Hfalse. switch_not Hnum.
  switch_not Hstr. switch_not Harr. switch_not Hobj. reflexivity.
Qed.

Lemma json_print_unknown_tag_witness :
  json_print 1 main_heap (mk_leaf 7) = Ok tt no_trace /\
  json_print 1 main_heap (mk_leaf (-1)) = Ok tt no_trace.
Proof.
  split.
  - apply (json_print_unknown_tag 0 main_heap (mk_leaf 7)); vm_compute; lia.
  - apply (json_print_unknown_tag 0 main_heap (mk_leaf (-1))); vm_compute; lia.
Defined.

(** ** Arrays *)

(** C1: an Array node is printed as [[], the renderings of its cells
    [elems[0] .. elems[len-1]] in index order with [, ] between consecutive
    ones and none after the last, then []]; with [len = 0] that is [[]]. *)
Theorem json_print_array (h : Heap) (json : Json) (cells : list Json)
    (outs : list (list byte)) :
  tag json = Tag.Array ->
  array_at h (array json) cells ->
  Forall2 (renders h) cells outs ->
  renders h json (lit "[" ++ join (lit ", ") outs ++ lit "]") /\
  (JsonArray.len (array json) = 0 -> renders h json (lit "[]")).
Proof.
  intros Htag Harr Houts.
  assert (Hmain : renders h json (lit "[" ++ join (lit ", ") outs ++ lit "]")).
  { destruct (renders_common_fuel h cells outs Houts) as [fuel Hfuel].
    exists (S fuel). rewrite (emitted_array fuel h json cells Htag Harr).
    apply mapM_Some_2 in Hfuel. now rewrite Hfuel. }
  split; [exact Hmain|].
  intros Hlen. destruct Harr as (_ & Hcells & _).
  assert (cells = []) as -> by (apply length_zero_iff_nil; lia).
  apply Forall2_nil_inv_l in Houts. subst outs. exact Hmain.
Qed.

Lemma json_print_array_witness :
  renders main_heap main_inner_array (lit "[12.000000, 12.000000, {inner : 12.000000}]") /\
  renders no_heap (mk_arr 0 0) (lit "[]").
Proof.
  split.
  - refine (proj1 (json_print_array main_heap main_inner_array
                     main_array_cells
                     [lit "12.000000"; lit "12.000000"; lit "{inner : 12.000000}"] _ _ _)).
    + reflexivity.
    + split; [vm_compute; split; [discriminate|reflexivity]|].
      split; [reflexivity|].
      intros [|[|[|k]]] x Hk; vm_compute in Hk |- *; congruence.
    + repeat constructor; exists 3%nat; vm_compute; reflexivity.
  - refine (proj2 (json_print_array no_heap (mk_arr 0 0) [] [] _ _ _) _).
    + reflexivity.
    + split; [vm_compute; split; [discriminate|reflexivity]|].
      split; [reflexivity|].
      intros k x Hk; rewrite lookup_nil in Hk; congruence.
    + constructor.
    + reflexivity.
Defined.

(** ** Strings *)

(** C3, as the code has it: a String node is printed as a double quote, the
    bytes of the buffer up to its first null character, unescaped, and a
    double quote.  These are all [len] bytes when none of them is null,
    whatever else they are (quotes, backslashes, control characters). *)
Theorem json_print_string (fuel : nat) (h : Heap) (json : Json) (content : list byte) :
  tag json = Tag.String ->
  string_at h (string json) content ->
  emitted (json_print (S fuel) h json) = Some ([DQUOTE] ++ until_nul content ++ [DQUOTE]) /\
  (NUL ∉ content ->
   emitted (json_print (S fuel) h json) = Some ([DQUOTE] ++ content ++ [DQUOTE])).
Proof.
  intros Htag Hstr. split.
  - exact (emitted_string fuel h json content Htag Hstr).
  - intros Hnul. rewrite (emitted_string fuel h json content Htag Hstr).
    now rewrite (until_nul_id content Hnul).
Qed.

Lemma json_print_string_witness :
  emitted (json_print 1 strings_heap (mk_str 16 3)) = Some ([DQUOTE] ++ lit "a" ++ [DQUOTE]) /\
  emitted (json_print 1 strings_heap (mk_str 8 5)) = Some ([DQUOTE] ++ hazard_bytes ++ [DQUOTE]).
Proof.
  split.
  - refine (proj1 (json_print_string 0 strings_heap (mk_str 16 3) nul_bytes _ _)).
    + reflexivity.
    + split; reflexivity.
  - refine (proj2 (json_print_string 0 strings_heap (mk_str 8 5) hazard_bytes _ _) _).
    + reflexivity.
    + split; reflexivity.
    + apply (bool_decide_unpack _). vm_compute. exact I.
Defined.

(** C3 as stated fails: the string of three bytes [a], null, [b] is printed
    as ["a"], not as all three bytes between quotes. *)
Lemma string_embedded_nul_cut :
  tag (mk_str 16 3) = Tag.String /\
  string_at strings_heap (string (mk_str 16 3)) nul_bytes /\
  emitted (json_print 1 strings_heap (mk_str 16 3)) = Some ([DQUOTE] ++ [x61] ++ [DQUOTE]) /\
  emitted (json_print 1 strings_heap (mk_str 16 3)) <> Some ([DQUOTE] ++ nul_bytes ++ [DQUOTE]).
Proof.
  split; [reflexivity|]. split; [split; reflexivity|].
  split; [reflexivity|]. vm_compute. discriminate.
Qed.

(** ** Empty collections *)

(** The separator test's [len - 1] on an empty collection. *)
Lemma wrap_pred_zero : wrap (0 - 1) = 2 ^ 64 - 1.
Proof. reflexivity. Qed.

(** C7: on an Array or an Object with [len = 0], [json_print] loads nothing
    through [elems], whatever the pointer is and whatever the heap holds:
    it returns having written the two brackets, with an empty log of loads. *)
Theorem json_print_empty_no_load (fuel : nat) (h : Heap) (json : Json) :
  (tag json = Tag.Array -> JsonArray.len (array json) = 0 ->
   json_print (S fuel) h json = Ok tt (mkTrace (lit "[]") [])) /\
  (tag json = Tag.Object -> JsonObject.len (object json) = 0 ->
   json_print (S fuel) h json = Ok tt (mkTrace (lit "{}") [])).
Proof.
  split; intros Htag Hlen; switch_on Htag; rewrite Hlen; reflexivity.
Qed.

Lemma json_print_empty_no_load_witness :
  json_print 1 no_heap (mk_arr 0 0) = Ok tt (mkTrace (lit "[]") []) /\
  json_print 1 no_heap (mk_obj 3735928559 0) = Ok tt (mkTrace (lit "{}") []).
Proof.
  split.
  - apply (json_print_empty_no_load 0 no_heap (mk_arr 0 0)); reflexivity.
  - apply (json_print_empty_no_load 0 no_heap (mk_obj 3735928559 0)); reflexivity.
Defined.

(** With [len = 1] and the same pointers the first round faults. *)
Example json_print_dangling_faults :
  json_print 1 no_heap (mk_arr 0 1) = Fault /\
  json_print 1 no_heap (mk_obj 3735928559 1) = Fault.
Proof. split; reflexivity. Qed.

(** ** Objects *)

(** C2, as the code has it: an Object node is printed as [{], then for each
    entry in stored order the bytes of its key up to the first null
    character, without quotes, then [ : ], then the rendering of the value
    behind [val], with [, ] between consecutive entries and none after the
    last, then [}].  A key without null character is written whole; with
    [len = 0] the output is [{}]. *)
Theorem json_print_object (h : Heap) (json : Json) (entries : list JsonEntry.t)
    (items : list (list byte * list byte)) :
  tag json = Tag.Object ->
  object_at h (object json) entries ->
  Forall2 (fun ent item => exists v, entry_at h ent (fst item) v /\ renders h v (snd item))
          entries items ->
  renders h json (lit "{" ++ join (lit ", ") (entry_texts items) ++ lit "}") /\
  (Forall (fun item => NUL ∉ fst item) items ->
   renders h json
     (lit "{"
      ++ join (lit ", ") ((fun item => entry_text (fst item) (snd item)) <$> items)
      ++ lit "}")) /\
  (JsonObject.len (object json) = 0 -> renders h json (lit "{}")).
Proof.
  intros Htag Hobj Hitems.
  assert (Hmain : renders h json (lit "{" ++ join (lit ", ") (entry_texts items) ++ lit "}")).
  { destruct (Forall2_common_fuel
                (fun f ent item => exists v, entry_at h ent (fst item) v /\
                                   emitted (json_print f h v) = Some (snd item))
                entries items) as [fuel Hfuel].
    - intros f f' ent item Hle (v & Hent & Hv). exists v. split; [exact Hent|].
      now apply (emitted_mono h f).
    - eapply Forall2_impl; [exact Hitems|].
      intros ent item (v & Hent & f & Hv). exists f, v. now split.
    - exists (S fuel). rewrite (emitted_object fuel h json entries Htag Hobj).
      erewrite mapM_Some_2; [reflexivity|].
      unfold entry_texts. apply Forall2_fmap_r.
      eapply Forall2_impl; [exact Hfuel|].
      intros ent item (v & Hent & Hv).
      rewrite (entry_emitted fuel h ent (fst item) v Hent), Hv. reflexivity. }
  split; [exact Hmain|]. split.
  - intros Hnul.
    replace ((fun item => entry_text (fst item) (snd item)) <$> items)
      with (entry_texts items); [exact Hmain|].
    unfold entry_texts. apply list_fmap_ext.
    intros k item Hk. rewrite until_nul_id; [reflexivity|].
    rewrite Forall_lookup in Hnul. exact (Hnul k item Hk).
  - intros Hlen. destruct Hobj as (_ & Hcells & _).
    assert (entries = []) as -> by (apply length_zero_iff_nil; lia).
    apply Forall2_nil_inv_l in Hitems. subst items. exact Hmain.
Qed.

Lemma json_print_object_witness :
  renders strings_heap nul_key_object (lit "{a : null}") /\
  renders main_heap (mk_obj 3100 1) (lit "{inner : 12.000000}") /\
  renders no_heap (mk_obj 0 0) (lit "{}").
Proof.
  split; [|split].
  - refine (proj1 (json_print_object strings_heap nul_key_object [nul_key_entry]
                     [(nul_bytes, lit "null")] _ _ _)).
    + reflexivity.
    + split; [vm_compute; split; [discriminate|reflexivity]|].
      split; [reflexivity|].
      intros [|k] x Hk; vm_compute in Hk |- *; congruence.
    + constructor; [|constructor]. exists (mk_leaf Tag.Null).
      split; [split; [split|]; reflexivity|].
      exists 1%nat. reflexivity.
  - refine (proj1 (proj2 (json_print_object main_heap (mk_obj 3100 1) [main_inner_entry]
                            [(lit "inner", lit "12.000000")] _ _ _)) _).
    + reflexivity.
    + split; [vm_compute; split; [discriminate|reflexivity]|].
      split; [reflexivity|].
      intros [|k] x Hk; vm_compute in Hk |- *; congruence.
    + constructor; [|constructor]. exists (mk_num 12).
      split; [split; [split|]; reflexivity|].
      exists 1%nat. reflexivity.
    + constructor; [|constructor]. apply (bool_decide_unpack _). vm_compute. exact I.
  - refine (proj2 (proj2 (json_print_object no_heap (mk_obj 0 0) [] [] _ _ _)) _).
    + reflexivity.
    + split; [vm_compute; split; [discriminate|reflexivity]|].
      split; [reflexivity|].
      intros k x Hk; rewrite lookup_nil in Hk; congruence.
    + constructor.
    + reflexivity.
Defined.

(** C2 as stated fails: the entry whose key is the three bytes [a], null,
    [b] is printed as [a : null]; the bytes after the null character are
    not written. *)
Lemma object_key_embedded_nul_cut :
  tag nul_key_object = Tag.Object /\
  object_at strings_heap (object nul_key_object) [nul_key_entry] /\
  entry_at strings_heap nul_key_entry nul_bytes (mk_leaf Tag.Null) /\
  renders strings_heap (mk_leaf Tag.Null) (lit "null") /\
  renders strings_heap nul_key_object (lit "{a : null}") /\
  ~ renders strings_heap nul_key_object (lit "{" ++ nul_bytes ++ lit " : null" ++ lit "}").
Proof.
  assert (Hr : renders strings_heap nul_key_object (lit "{a : null}"))
    by (exists 2%nat; reflexivity).
  split; [reflexivity|].
  split.
  { split; [vm_compute; split; [discriminate|reflexivity]|].
    split; [reflexivity|].
    intros [|k] x Hk; vm_compute in Hk |- *; congruence. }
  split; [split; [split|]; reflexivity|].
  split; [exists 1%nat; reflexivity|].
  split; [exact Hr|].
  intros Hbad. pose proof (renders_unique _ _ _ _ Hr Hbad) as Heq.
  vm_compute in Heq. discriminate Heq.
Qed.

(** ** Termination *)

Lemma tree_returns (h : Heap) (fuel d : nat) (json : Json) :
  tree h d json -> (d < fuel)%nat ->
  exists t, json_print fuel h json = Ok tt t.
Proof.
  assert (Hok : forall r : Result unit, is_Some (emitted r) -> exists t, r = Ok tt t).
  { intros [[] t| |] [o Ho]; try discriminate Ho. now exists t. }
  revert d json. induction fuel as [|fuel IH]; intros d json Htree Hd; [lia|].
  inversion Htree as [d' j Hs Ha Ho|d' j content Htag Hstr
                      |d' j cells Htag Harr Hcells|d' j entries Htag Hobj Hents]; subst.
  - destruct (json_print_scalar fuel h json Hs Ha Ho) as [out Hout]. eauto.
  - apply Hok. rewrite (emitted_string fuel h json content Htag Hstr). eauto.
  - apply Hok. rewrite (emitted_array fuel h json cells Htag Harr).
    apply fmap_is_Some, mapM_is_Some_2.
    eapply Forall_impl; [exact Hcells|]. intros e He. simpl.
    destruct (IH d' e He) as [t Ht]; [lia|]. rewrite Ht. eauto.
  - apply Hok. rewrite (emitted_object fuel h json entries Htag Hobj).
    apply fmap_is_Some, mapM_is_Some_2.
    eapply Forall_impl; [exact Hents|]. intros ent (content & v & Hent & Hv). simpl.
    rewrite (entry_emitted fuel h ent content v Hent).
    destruct (IH d' v Hv) as [t Ht]; [lia|]. rewrite Ht. eauto.
Qed.

(** C9: on a finite tree [json_print] returns: there is a depth of stack
    from which on the call ends normally. *)
Theorem json_print_terminates (h : Heap) (json : Json) :
  finite_tree h json ->
  exists fuel, forall fuel', (fuel <= fuel')%nat ->
    exists t, json_print fuel' h json = Ok tt t.
Proof.
  intros [d Htree]. exists (S d). intros fuel' Hle.
  apply (tree_returns h fuel' d json Htree). lia.
Qed.

Lemma cells_at_list {A} (mem : gmap pointer (list A)) (p : pointer) (xs : list A) :
  mem !! p = Some xs -> Z.of_nat (length xs) < 2 ^ 64 ->
  cells_at mem p (Z.of_nat (length xs)) xs.
Proof.
  intros Hp Hlen. split; [split; lia|]. split; [reflexivity|].
  intros k x Hk. unfold cell. now rewrite Hp.
Qed.

(** The document of [main] is a tree of height 3. *)
Lemma main_tree : tree main_heap 3 main_json.
Proof.
  assert (Hnum : forall d x, tree main_heap d (mk_num x))
    by (intros d x; apply tree_scalar; discriminate).
  assert (Hleaf : forall d tg, tg <> Tag.String -> tg <> Tag.Array -> tg <> Tag.Object ->
                               tree main_heap d (mk_leaf tg))
    by (intros d tg H1 H2 H3; apply tree_scalar; assumption).
  assert (Hinner : tree main_heap 1 (mk_obj 3100 1)).
  { apply (tree_object _ _ _ [main_inner_entry]); [reflexivity| |].
    - apply (cells_at_list (entries_at main_heap) 3100 [main_inner_entry]); reflexivity.
    - apply Forall_cons_2; [|apply Forall_nil_2]. exists (lit "inner"), (mk_num 12).
      split; [split; [split|]; reflexivity|apply Hnum]. }
  apply (tree_object _ _ _ main_root_entries); [reflexivity| |].
  { apply (cells_at_list (entries_at main_heap) 3000 main_root_entries); reflexivity. }
  repeat apply Forall_cons_2; try apply Forall_nil_2.
  - exists (lit "true"), (mk_leaf Tag.True).
    split; [split; [split|]; reflexivity|apply Hleaf; discriminate].
  - exists (lit "false"), (mk_leaf Tag.False).
    split; [split; [split|]; reflexivity|apply Hleaf; discriminate].
  - exists (lit "null"), (mk_leaf Tag.Null).
    split; [split; [split|]; reflexivity|apply Hleaf; discriminate].
  - exists (lit "array"), (mk_arr 2400 3).
    split; [split; [split|]; reflexivity|].
    apply (tree_array _ _ _ main_array_cells); [reflexivity| |].
    + apply (cells_at_list (jsons_at main_heap) 2400 main_array_cells); reflexivity.
    + repeat apply Forall_cons_2; try apply Forall_nil_2; auto.
  - exists (lit "object"), (mk_obj 3200 1).
    split; [split; [split|]; reflexivity|].
    apply (tree_object _ _ _ [main_object_entry]); [reflexivity| |].
    + apply (cells_at_list (entries_at main_heap) 3200 [main_object_entry]); reflexivity.
    + repeat apply Forall_cons_2; try apply Forall_nil_2.
      exists (lit "1"), (mk_num 1).
      split; [split; [split|]; reflexivity|apply Hnum].
Qed.

Lemma json_print_terminates_witness :
  exists fuel, forall fuel', (fuel <= fuel')%nat ->
    exists t, json_print fuel' main_heap main_json = Ok tt t.
Proof.
  apply (json_print_terminates main_heap main_json).
  exists 3%nat. exact main_tree.
Defined.

(** The run of [main]: what the example prints. *)
Example main_output :
  emitted (json_print 4 main_heap main_json)
  = Some (lit "{true : true, false : false, null : null, array : [12.000000, 12.000000, {inner : 12.000000}], object : {1 : 1.000000}}").
Proof. vm_compute. reflexivity. Qed.

(** An array that is its own element is no finite tree, and no depth of
    stack lets [json_print] return on it. *)
Example json_print_cycle (fuel : nat) :
  json_print fuel loop_heap (mk_arr 64 1) = OutOfFuel.
Proof.
  induction fuel as [|fuel IH]; [reflexivity|].
  cbn [json_print]. change (tag (mk_arr 64 1) =? Tag.Array) with true. cbv iota.
  unfold for_loop. simpl.
  change (load_json loop_heap 64 0) with (Ok (mk_arr 64 1) (mkTrace [] [LoadJson 64 0])).
  rewrite !bind_unfold. cbn [bind]. rewrite bind_unfold, IH. reflexivity.
Qed.

(** ** Determinism *)

Lemma same_tree_emitted (h1 h2 : Heap) (fuel d : nat) (j1 j2 : Json) :
  same_tree h1 h2 d j1 j2 ->
  emitted (json_print fuel h1 j1) = emitted (json_print fuel h2 j2).
Proof.
  revert d j1 j2. induction fuel as [|fuel IH]; intros d j1 j2 Hsame; [reflexivity|].
  inversion Hsame as [d' a b Htag Hn Hs Ha Ho
                     |d' a b Ht1 Ht2 Hnum
                     |d' a b content Ht1 Ht2 Hs1 Hs2
                     |d' a b cells1 cells2 Ht1 Ht2 Ha1 Ha2 Hcells
                     |d' a b entries1 entries2 Ht1 Ht2 Ho1 Ho2 Hents]; subst.
  - cbn [json_print]. rewrite <- Htag.
    switch_not Hn. switch_not Hs. switch_not Ha. switch_not Ho. reflexivity.
  - cbn [json_print]. rewrite Ht1, Ht2, Hnum. reflexivity.
  - rewrite (emitted_string fuel h1 j1 content Ht1 Hs1).
    now rewrite (emitted_string fuel h2 j2 content Ht2 Hs2).
  - rewrite (emitted_array fuel h1 j1 cells1 Ht1 Ha1).
    rewrite (emitted_array fuel h2 j2 cells2 Ht2 Ha2).
    f_equal. apply mapM_Forall2_eq.
    eapply Forall2_impl; [exact Hcells|]. intros e1 e2 He. exact (IH d' e1 e2 He).
  - rewrite (emitted_object fuel h1 j1 entries1 Ht1 Ho1).
    rewrite (emitted_object fuel h2 j2 entries2 Ht2 Ho2).
    f_equal. apply mapM_Forall2_eq.
    eapply Forall2_impl; [exact Hents|].
    intros e1 e2 (content & v1 & v2 & He1 & He2 & Hv).
    rewrite (entry_emitted fuel h1 e1 content v1 He1).
    rewrite (entry_emitted fuel h2 e2 content v2 He2).
    now rewrite (IH d' v1 v2 Hv).
Qed.

Lemma Forall2_left {A B} (R : A -> B -> Prop) (P : A -> Prop) (xs : list A) (ys : list B) :
  (forall x y, R x y -> P x) -> Forall2 R xs ys -> Forall P xs.
Proof. intros HRP. induction 1; constructor; eauto. Qed.

Lemma same_tree_tree (h1 h2 : Heap) (d : nat) (j1 j2 : Json) :
  same_tree h1 h2 d j1 j2 -> tree h1 d j1.
Proof.
  revert j1 j2. induction d as [|d IH]; intros j1 j2 Hsame;
    inversion Hsame as [d' a b Htag Hn Hs Ha Ho
                       |d' a b Ht1 Ht2 Hnum
                       |d' a b content Ht1 Ht2 Hs1 Hs2
                       |d' a b cells1 cells2 Ht1 Ht2 Ha1 Ha2 Hcells
                       |d' a b entries1 entries2 Ht1 Ht2 Ho1 Ho2 Hents]; subst;
    try (apply tree_scalar; congruence);
    try (apply tree_scalar; rewrite Ht1; discriminate);
    try (apply (tree_string _ _ _ content); assumption).
  - apply (tree_array _ _ _ cells1); [assumption..|].
    apply (Forall2_left _ _ _ _ IH Hcells).
  - apply (tree_object _ _ _ entries1); [assumption..|].
    refine (Forall2_left _ _ _ _ _ Hents).
    intros e1 e2 (content & v1 & v2 & He1 & _ & Hv).
    exists content, v1. split; [exact He1|exact (IH v1 v2 Hv)].
Qed.

(** C10: [json_print] is deterministic in the tree: on structurally equal
    trees, wherever they lie in memory, two calls write the same bytes, at
    every depth of stack; and with stack enough both return, with one and
    the same output. *)
Theorem json_print_deterministic (h1 h2 : Heap) (d : nat) (j1 j2 : Json) :
  same_tree h1 h2 d j1 j2 ->
  (forall fuel, emitted (json_print fuel h1 j1) = emitted (json_print fuel h2 j2)) /\
  (exists out, renders h1 j1 out /\ renders h2 j2 out).
Proof.
  intros Hsame. split.
  - intros fuel. exact (same_tree_emitted h1 h2 fuel d j1 j2 Hsame).
  - destruct (tree_returns h1 (S d) d j1 (same_tree_tree h1 h2 d j1 j2 Hsame)) as [t Ht];
      [lia|].
    exists (stdout t). split; exists (S d).
    + now rewrite Ht.
    + rewrite <- (same_tree_emitted h1 h2 (S d) d j1 j2 Hsame). now rewrite Ht.
Qed.

Lemma here_there_same : same_tree here_heap there_heap 1 here_json there_json.
Proof.
  apply (same_array _ _ _ _ _ [mk_str 8 2; mk_num 1] there_cells); try reflexivity.
  - apply (cells_at_list (jsons_at here_heap) 128 [mk_str 8 2; mk_num 1]); reflexivity.
  - apply (cells_at_list (jsons_at there_heap) 8192 there_cells); reflexivity.
  - constructor; [|constructor; [|constructor]].
    + apply (same_string _ _ _ _ _ (lit "hi")); try reflexivity; split; reflexivity.
    + apply same_number; reflexivity.
Qed.

Lemma json_print_deterministic_witness :
  (forall fuel, emitted (json_print fuel here_heap here_json)
                = emitted (json_print fuel there_heap there_json)) /\
  (exists out, renders here_heap here_json out /\ renders there_heap there_json out).
Proof.
  apply (json_print_deterministic here_heap there_heap 1 here_json there_json).
  exact here_there_same.
Defined.

(** * Further properties of [json_print] *)

(** ** The whole document *)

Lemma layout_emitted (h : Heap) (fuel d : nat) (json : Json) (doc : Doc) :
  layout h d json doc -> (d < fuel)%nat ->
  emitted (json_print fuel h json) = Some (render doc).
Proof.
  revert d json doc. induction fuel as [|fuel IH]; intros d json doc Hlay Hd; [lia|].
  inversion Hlay as [d' j Htag|d' j Htag|d' j Htag|d' j Htag
                    |d' j content Htag Hstr
                    |d' j cells items Htag Harr Hitems
                    |d' j entries members Htag Hobj Hmembers]; subst.
  - switch_on Htag. reflexivity.
  - switch_on Htag. reflexivity.
  - switch_on Htag. reflexivity.
  - switch_on Htag. reflexivity.
  - exact (emitted_string fuel h json content Htag Hstr).
  - rewrite (emitted_array fuel h json cells Htag Harr).
    erewrite mapM_Some_2; [reflexivity|].
    apply Forall2_fmap_r. eapply Forall2_impl; [exact Hitems|].
    intros e item He. apply (IH d' e item He). lia.
  - rewrite (emitted_object fuel h json entries Htag Hobj).
    erewrite mapM_Some_2; [reflexivity|].
    apply Forall2_fmap_r. eapply Forall2_impl; [exact Hmembers|].
    intros ent m (v & Hent & Hv).
    rewrite (entry_emitted fuel h ent (fst m) v Hent).
    rewrite (IH d' v (snd m) Hv) by lia. reflexivity.
Qed.

(** X1: on a document laid out in memory the run of [json_print] returns,
    at every depth of stack above the height of the tree, and has written
    the text [render] gives the document: the cases of the printer compose
    over the whole tree. *)
Theorem json_print_render (h : Heap) (d : nat) (json : Json) (doc : Doc) :
  layout h d json doc ->
  forall fuel, (d < fuel)%nat -> emitted (json_print fuel h json) = Some (render doc).
Proof.
  intros Hlay fuel Hd. exact (layout_emitted h fuel d json doc Hlay Hd).
Qed.

Lemma main_layout : layout main_heap 3 main_json main_doc.
Proof.
  assert (Hnum : forall d x, layout main_heap d (mk_num x) (DNumber x))
    by (intros d x; apply (layout_number main_heap d (mk_num x)); reflexivity).
  apply (layout_object _ _ _ main_root_entries); [reflexivity| |].
  { apply (cells_at_list (entries_at main_heap) 3000 main_root_entries); reflexivity. }
  repeat (apply Forall2_cons_2 || apply Forall2_nil_2).
  - exists (mk_leaf Tag.True).
    split; [split; [split|]; reflexivity|now apply layout_true].
  - exists (mk_leaf Tag.False).
    split; [split; [split|]; reflexivity|now apply layout_false].
  - exists (mk_leaf Tag.Null).
    split; [split; [split|]; reflexivity|now apply layout_null].
  - exists (mk_arr 2400 3).
    split; [split; [split|]; reflexivity|].
    apply (layout_array _ _ _ main_array_cells); [reflexivity| |].
    + apply (cells_at_list (jsons_at main_heap) 2400 main_array_cells); reflexivity.
    + repeat (apply Forall2_cons_2 || apply Forall2_nil_2); try apply Hnum.
      apply (layout_object _ _ _ [main_inner_entry]); [reflexivity| |].
      * apply (cells_at_list (entries_at main_heap) 3100 [main_inner_entry]); reflexivity.
      * repeat (apply Forall2_cons_2 || apply Forall2_nil_2).
        exists (mk_num 12). split; [split; [split|]; reflexivity|apply Hnum].
  - exists (mk_obj 3200 1).
    split; [split; [split|]; reflexivity|].
    apply (layout_object _ _ _ [main_object_entry]); [reflexivity| |].
    + apply (cells_at_list (entries_at main_heap) 3200 [main_object_entry]); reflexivity.
    + repeat (apply Forall2_cons_2 || apply Forall2_nil_2).
      exists (mk_num 1). split; [split; [split|]; reflexivity|apply Hnum].
Qed.

Lemma json_print_render_witness :
  emitted (json_print 4 main_heap main_json) = Some (render main_doc).
Proof.
  apply (json_print_render main_heap 3 main_json main_doc main_layout 4%nat). lia.
Defined.

(** X2: the text is no encoding of the document.  Strings are written
    unescaped, so the array of the one string [a", "b] and the array of
    the two strings [a] and [b], two different documents, are printed as
    the same bytes wherever they are laid out. *)
Theorem json_print_not_injective (h : Heap) (d : nat) (j1 j2 : Json) (fuel : nat) :
  layout h d j1 glued_doc -> layout h d j2 split_doc -> (d < fuel)%nat ->
  glued_doc <> split_doc /\
  emitted (json_print fuel h j1) = emitted (json_print fuel h j2) /\
  is_Some (emitted (json_print fuel h j1)).
Proof.
  intros H1 H2 Hd. split; [discriminate|].
  rewrite (layout_emitted h fuel d j1 glued_doc H1 Hd).
  rewrite (layout_emitted h fuel d j2 split_doc H2 Hd).
  split; [reflexivity|eauto].
Qed.

Lemma glued_layout : layout glued_heap 1 (mk_arr 128 1) glued_doc.
Proof.
  apply (layout_array _ _ _ [mk_str 8 6]); [reflexivity| |].
  - apply (cells_at_list (jsons_at glued_heap) 128 [mk_str 8 6]); reflexivity.
  - repeat (apply Forall2_cons_2 || apply Forall2_nil_2).
    apply (layout_string glued_heap 0 (mk_str 8 6)); [reflexivity|split; reflexivity].
Qed.

Lemma split_layout : layout glued_heap 1 (mk_arr 256 2) split_doc.
Proof.
  apply (layout_array _ _ _ [mk_str 16 1; mk_str 24 1]); [reflexivity| |].
  - apply (cells_at_list (jsons_at glued_heap) 256 [mk_str 16 1; mk_str 24 1]); reflexivity.
  - repeat (apply Forall2_cons_2 || apply Forall2_nil_2).
    + apply (layout_string glued_heap 0 (mk_str 16 1)); [reflexivity|split; reflexivity].
    + apply (layout_string glued_heap 0 (mk_str 24 1)); [reflexivity|split; reflexivity].
Qed.

Lemma json_print_not_injective_witness :
  glued_doc <> split_doc /\
  emitted (json_print 2 glued_heap (mk_arr 128 1))
  = emitted (json_print 2 glued_heap (mk_arr 256 2)) /\
  is_Some (emitted (json_print 2 glued_heap (mk_arr 128 1))).
Proof.
  apply (json_print_not_injective glued_heap 1 (mk_arr 128 1) (mk_arr 256 2) 2
           glued_layout split_layout). lia.
Defined.

(** ** Strings and their terminator *)





(** ** Trusting [len] *)

Lemma bind_fault_l {A B} (f : A -> Result B) : (Fault ≫= f) = Fault.
Proof. reflexivity. Qed.

Lemma bind_ok_fault {A B} (m : Result A) (f : A -> Result B) (a : A) (t : Trace) :
  m = Ok a t -> f a = Fault -> m ≫= f = Fault.
Proof. intros Hm Hf. rewrite bind_unfold, Hm. simpl. now rewrite Hf. Qed.






(** The loop stops at the first round that faults. *)
Lemma for_loop_from_fault (body : Z -> Result unit) (len k : Z) (n : nat) (i : Z) :
  len < 2 ^ 64 -> 0 <= i <= k -> k < len ->
  (Z.to_nat (k - i) < n)%nat ->
  (forall j, i <= j < k -> exists t, body j = Ok tt t) ->
  body k = Fault ->
  for_loop_from n i len body = Fault.
Proof.
  intros Hmax Hik Hk Hn Hbefore Hfault. revert i Hik Hn Hbefore.
  induction n as [|n IH]; intros i Hik Hn Hbefore; [lia|].
  cbn [for_loop_from]. destruct (Z.ltb_spec i len) as [_|Hge]; [|lia].
  destruct (Z.eq_dec i k) as [->|Hne].
  - now rewrite Hfault.
  - destruct (Hbefore i) as [t Ht]; [lia|].
    apply (bind_ok_fault _ _ tt t Ht).
    replace (wrap (i + 1)) with (i + 1) by (unfold wrap; rewrite Z.mod_small; lia).
    apply IH; [lia|lia|]. intros j Hj. apply Hbefore. lia.
Qed.

Lemma for_loop_fault (body : Z -> Result unit) (len k : Z) :
  usize len -> 0 <= k < len ->
  (forall j, 0 <= j < k -> exists t, body j = Ok tt t) ->
  body k = Fault ->
  for_loop len body = Fault.
Proof.
  intros [H0 Hmax] Hk Hbefore Hfault. unfold for_loop.
  apply (for_loop_from_fault body len k); try assumption; lia.
Qed.

(** X4: an Array node is read as far as [len] says, with no other check:
    when the cell [elems[k]], [k < len], is not backed by memory (the
    allocation is shorter than [len], or [elems] is null or dangling) and
    the cells in front of it are printed without error, the run faults. *)
Theorem json_print_array_out_of_bounds (fuel : nat) (h : Heap) (json : Json) (k : nat) :
  tag json = Tag.Array ->
  usize (JsonArray.len (array json)) ->
  Z.of_nat k < JsonArray.len (array json) ->
  (forall j : nat, (j < k)%nat ->
     exists e t, cell (jsons_at h) (JsonArray.elems (array json)) j = Some e /\
                 json_print fuel h e = Ok tt t) ->
  cell (jsons_at h) (JsonArray.elems (array json)) k = None ->
  json_print (S fuel) h json = Fault.
Proof.
  intros Htag Hu Hk Hbefore Hnone. switch_on Htag.
  apply (bind_ok_fault _ _ tt (mkTrace (lit "[") [])); [reflexivity|].
  rewrite (for_loop_fault _ _ (Z.of_nat k) Hu); [reflexivity|lia| |].
  - intros j Hj. destruct (Hbefore (Z.to_nat j)) as (e & t & He & Ht); [lia|].
    unfold load_json. rewrite He, !bind_unfold. cbn [bind]. rewrite Ht.
    destruct (j <? _); eexists; reflexivity.
  - unfold load_json. rewrite Nat2Z.id, Hnone. reflexivity.
Qed.

Lemma json_print_array_out_of_bounds_witness :
  json_print 2 broken_heap (mk_arr 128 3) = Fault /\
  json_print 2 broken_heap (mk_arr 0 1) = Fault.
Proof.
  split.
  - apply (json_print_array_out_of_bounds 1 broken_heap (mk_arr 128 3) 2).
    + reflexivity.
    + vm_compute. split; [discriminate|reflexivity].
    + reflexivity.
    + intros [|[|j]] Hj; [| |lia].
      * exists (mk_leaf Tag.Null), (mkTrace (lit "null") []). split; reflexivity.
      * exists (mk_leaf Tag.True), (mkTrace (lit "true") []). split; reflexivity.
    + reflexivity.
  - apply (json_print_array_out_of_bounds 1 broken_heap (mk_arr 0 1) 0).
    + reflexivity.
    + vm_compute. split; [discriminate|reflexivity].
    + reflexivity.
    + intros j Hj. lia.
    + reflexivity.
Defined.



(** ** Memory the tree does not reach *)

Section Frame.

Variables h h' : Heap.
Hypothesis Hsub : heap_sub h h'.

Lemma cell_weaken {A} (mem mem' : gmap pointer (list A)) (p : pointer) (i : nat) (x : A) :
  mem ⊆ mem' -> cell mem p i = Some x -> cell mem' p i = Some x.
Proof.
  intros Hmem. unfold cell. destruct (mem !! p) as [cells|] eqn:E; [|discriminate].
  now rewrite (lookup_weaken mem mem' p cells E Hmem).
Qed.

Lemma res_le_load_json (p : pointer) (i : Z) :
  res_le (load_json h p i) (load_json h' p i).
Proof.
  intros e t. unfold load_json.
  destruct (cell (jsons_at h) p (Z.to_nat i)) as [e'|] eqn:E; [|discriminate].
  now rewrite (cell_weaken _ _ p _ e' (proj1 (proj2 Hsub)) E).
Qed.

Lemma res_le_load_entry (p : pointer) (i : Z) :
  res_le (load_entry h p i) (load_entry h' p i).
Proof.
  intros e t. unfold load_entry.
  destruct (cell (entries_at h) p (Z.to_nat i)) as [e'|] eqn:E; [|discriminate].
  now rewrite (cell_weaken _ _ p _ e' (proj2 (proj2 Hsub)) E).
Qed.

Lemma res_le_load_str (p : pointer) : res_le (load_str h p) (load_str h' p).
Proof.
  intros s t. unfold load_str.
  destruct (bytes_at h !! p) as [mem|] eqn:E; [|discriminate].
  now rewrite (lookup_weaken _ _ p mem E (proj1 Hsub)).
Qed.

Lemma json_print_heap_mono (fuel : nat) (json : Json) :
  res_le (json_print fuel h json) (json_print fuel h' json).
Proof.
  revert json. induction fuel as [|fuel IH]; intros json.
  - apply res_le_refl.
  - pose proof res_le_load_json. pose proof res_le_load_entry.
    pose proof res_le_load_str.
    cbn [json_print]. repeat res_le_step.
Qed.

End Frame.

(** X6: [json_print] looks at nothing but the memory the tree reaches: a
    run that returned returns the same, output and loads, on every heap
    that holds the allocations of the first unchanged, whatever else it
    holds. *)
Theorem json_print_frame (h h' : Heap) (fuel : nat) (json : Json) (t : Trace) :
  heap_sub h h' ->
  json_print fuel h json = Ok tt t ->
  json_print fuel h' json = Ok tt t.
Proof.
  intros Hsub Hrun. exact (json_print_heap_mono h h' Hsub fuel json tt t Hrun).
Qed.

Lemma here_sub_both : heap_sub here_heap both_heap.
Proof.
  split; [|split].
  - apply insert_subseteq. reflexivity.
  - apply insert_subseteq. reflexivity.
  - reflexivity.
Qed.

Lemma json_print_frame_witness :
  json_print 2 both_heap here_json
  = Ok tt (mkTrace ([x5b; DQUOTE] ++ lit "hi" ++ [DQUOTE] ++ lit ", 1.000000]")
                   [LoadJson 128 0; LoadStr 8; LoadJson 128 1]).
Proof.
  apply (json_print_frame here_heap both_heap 2 here_json _ here_sub_both).
  vm_compute. reflexivity.
Defined.

(** ** No null character in the output *)

Lemma digit_not_nul (d : Z) : NUL <> digit d.
Proof.
  unfold digit. destruct d as [|p|p]; try discriminate.
  repeat (destruct p as [p|p|]; try discriminate).
Qed.

Lemma uint_digits_clean (d : Decimal.uint) : NUL ∉ uint_digits d.
Proof.
  induction d; cbn [uint_digits];
    [apply not_elem_of_nil|apply not_elem_of_cons; split; [apply digit_not_nul|assumption]..].
Qed.

Lemma six_digits_clean (n : Z) : NUL ∉ six_digits n.
Proof.
  unfold six_digits. cbn [map].
  repeat (apply not_elem_of_cons; split; [apply digit_not_nul|]).
  apply not_elem_of_nil.
Qed.

Lemma sign_bytes_clean (s : bool) : NUL ∉ sign_bytes s.
Proof. destruct s; apply (bool_decide_unpack _); vm_compute; exact I. Qed.

Lemma fmt_f_clean (x : float) : NUL ∉ fmt_f x.
Proof.
  unfold fmt_f. destruct (Prim2SF x) as [s|s| |s m e];
    rewrite ?not_elem_of_app; repeat split;
    try apply sign_bytes_clean; try apply six_digits_clean;
    try apply uint_digits_clean;
    apply (bool_decide_unpack _); vm_compute; exact I.
Qed.

Lemma c_str_clean (mem s : list byte) : c_str mem = Some s -> NUL ∉ s.
Proof.
  revert s. induction mem as [|c mem IH]; intros s H; simpl in H; [discriminate H|].
  destruct (Byte.eqb c NUL) eqn:E.
  - injection H as <-. apply not_elem_of_nil.
  - destruct (c_str mem) as [s'|]; [|discriminate H]. injection H as <-.
    apply not_elem_of_cons. split; [|now apply IH].
    intros Hc. rewrite <- Hc in E. discriminate E.
Qed.

Lemma post_weaken {A} (Q R : A -> Prop) (r : Result A) :
  (forall a, Q a -> R a) -> post Q r -> post R r.
Proof. intros HQR Hr a t E. destruct (Hr a t E). auto. Qed.

Lemma post_bind {A B} (Q : A -> Prop) (R : B -> Prop) (m : Result A) (f : A -> Result B) :
  post Q m -> (forall a, Q a -> post R (f a)) -> post R (m ≫= f).
Proof.
  intros Hm Hf b t. rewrite bind_unfold.
  destruct m as [a tm| |]; simpl; try discriminate.
  destruct (Hm a tm eq_refl) as [Qa Hclean].
  destruct (f a) as [b' t'| |] eqn:E; try discriminate.
  intros [= <- <-]. destruct (Hf a Qa b' t' E) as [Rb Hclean'].
  split; [exact Rb|]. simpl. rewrite not_elem_of_app. auto.
Qed.

Lemma post_ret {A} (Q : A -> Prop) (a : A) : Q a -> post Q (mret a).
Proof. intros Qa a' t [= <- <-]. split; [exact Qa|apply not_elem_of_nil]. Qed.

Lemma post_printf (out : list byte) : NUL ∉ out -> post (fun _ => True%type) (printf out).
Proof. intros Hout a t [= <- <-]. auto. Qed.

Lemma post_lit (s : String.string) :
  bool_decide (NUL ∉ lit s) = true -> post (fun _ => True%type) (printf (lit s)).
Proof. intros H. apply post_printf. now apply bool_decide_eq_true in H. Qed.

Lemma post_when (c : bool) (m : Result unit) :
  post (fun _ => True%type) m -> post (fun _ => True%type) (when c m).
Proof. intros Hm. destruct c; [exact Hm|]. now apply (post_ret (fun _ => True%type)). Qed.

Lemma post_load_json (h : Heap) (p : pointer) (i : Z) :
  post (fun _ => True%type) (load_json h p i).
Proof.
  intros e t. unfold load_json. destruct (cell _ _ _); [|discriminate].
  intros [= <- <-]. split; [exact I|apply not_elem_of_nil].
Qed.

Lemma post_load_entry (h : Heap) (p : pointer) (i : Z) :
  post (fun _ => True%type) (load_entry h p i).
Proof.
  intros e t. unfold load_entry. destruct (cell _ _ _); [|discriminate].
  intros [= <- <-]. split; [exact I|apply not_elem_of_nil].
Qed.

Lemma post_load_str (h : Heap) (p : pointer) :
  post (fun s => NUL ∉ s) (load_str h p).
Proof.
  intros s t. unfold load_str. destruct (bytes_at h !! p) as [mem|]; [|discriminate].
  destruct (c_str mem) as [s'|] eqn:E; [|discriminate].
  intros [= <- <-]. split; [exact (c_str_clean mem s' E)|apply not_elem_of_nil].
Qed.

Lemma post_for_loop (len : Z) (body : Z -> Result unit) :
  (forall i, post (fun _ => True%type) (body i)) ->
  post (fun _ => True%type) (for_loop len body).
Proof.
  intros Hbody. unfold for_loop. generalize (Z.to_nat len) 0.
  intros n. induction n as [|n IH]; intros i; cbn [for_loop_from].
  - now apply (post_ret (fun _ => True%type)).
  - destruct (i <? len); [|now apply (post_ret (fun _ => True%type))].
    apply (post_bind (fun _ => True%type)); [apply Hbody|]. intros _ _. apply IH.
Qed.

Lemma json_print_post (fuel : nat) (h : Heap) (json : Json) :
  post (fun _ => True%type) (json_print fuel h json).
Proof.
  revert json. induction fuel as [|fuel IH]; intros json; [intros a t H; discriminate H|].
  cbn [json_print].
  repeat match goal with |- post _ (if ?c then _ else _) => destruct c end.
  - apply (post_bind (fun _ => True%type)); [now apply post_lit|]. intros _ _.
    apply (post_bind (fun _ => True%type)); [|intros _ _; now apply post_lit].
    apply post_for_loop. intros i.
    apply (post_bind (fun _ => True%type)); [apply post_load_json|]. intros e _.
    apply (post_bind (fun _ => True%type)); [apply IH|]. intros _ _.
    apply post_when. now apply post_lit.
  - apply post_printf, fmt_f_clean.
  - apply (post_bind (fun _ => True%type)); [now apply post_lit|]. intros _ _.
    apply (post_bind (fun _ => True%type)); [|intros _ _; now apply post_lit].
    apply post_for_loop. intros i.
    apply (post_bind (fun _ => True%type)).
    { apply (post_bind (fun _ => True%type)); [apply post_load_entry|].
      intros ent _. now apply post_ret. }
    intros s _.
    apply (post_bind (fun s => NUL ∉ s)); [apply post_load_str|]. intros str Hstr.
    apply (post_bind (fun _ => True%type)).
    { apply post_printf. rewrite not_elem_of_app. split; [exact Hstr|].
      apply (bool_decide_unpack _). vm_compute. exact I. }
    intros _ _.
    apply (post_bind (fun _ => True%type)); [apply post_load_entry|]. intros ent _.
    apply (post_bind (fun _ => True%type)); [apply post_load_json|]. intros v _.
    apply (post_bind (fun _ => True%type)); [apply IH|]. intros _ _.
    apply post_when. now apply post_lit.
  - apply (post_bind (fun s => NUL ∉ s)); [apply post_load_str|]. intros str Hstr.
    apply post_printf. rewrite !not_elem_of_app. repeat split; try exact Hstr;
      apply (bool_decide_unpack _); vm_compute; exact I.
  - now apply post_lit.
  - now apply post_lit.
  - now apply post_lit.
  - now apply (post_ret (fun _ => True%type)).
Qed.

(** X7: [json_print] never writes a null character: whatever the heap and
    the node, in a well-formed tree or not, the bytes of a run that
    returned hold none, so its output is one C string.  The bytes of keys
    and strings stop in front of their first null character, and literals
    and numbers have none. *)
Theorem json_print_no_nul (fuel : nat) (h : Heap) (json : Json) (out : list byte) :
  emitted (json_print fuel h json) = Some out -> NUL ∉ out.
Proof.
  intros H. destruct (json_print fuel h json) as [[] t| |] eqn:E; try discriminate H.
  injection H as <-. exact (proj2 (json_print_post fuel h json tt t E)).
Qed.

Lemma json_print_no_nul_witness :
  NUL ∉ [DQUOTE] ++ lit "a" ++ [DQUOTE].
Proof.
  apply (json_print_no_nul 1 strings_heap (mk_str 16 3)). reflexivity.
Defined.
